(** * otbuiltin: the Go binding over the ostree repository engine

    A shallow embedding of [pkg/otbuiltin/builtin.go].  The Go functions
    are written as state-passing functions over a [World] that holds what
    the native engine keeps behind the foreign-function bridge: the
    in-memory key files of the repository objects, the configuration each
    repository last persisted, and the log of native calls made so far.

    The native library itself is not part of the package.  Its fallible
    entry points are therefore a record of oracles ([Engine]); every
    theorem holds for all of them, and a scriptable [fake_engine] is used
    where a concrete run is evaluated. *)

From Stdlib Require Import ZArith.
From stdpp Require Import gmap strings list pretty.

Open Scope Z_scope.
Open Scope string_scope.
Open Scope list_scope.

(** ** Native values *)

(** A non-null native address; a C pointer is an [option addr], [None]
    being [NULL] (Go [nil]). *)
Abbreviation addr := positive.

(** [GError]: the error object of the native side.  The domain is a
    quark, an interned string. *)
Record GError := mkGError {
  domain : string;
  code : Z;
  message : string
}.

(** The payloads this package puts in a [GVariant]. *)
Inductive GVariant :=
| GVString (s : string)
| GVStrv (l : list string).

(** A Go [error] value; the Go functions return [option error], [None]
    being the [nil] error. *)
Record error := mkError { Error : string }.

Definition errors_New (msg : string) : error := mkError msg.

(** [C.gboolean] is a C [int]. *)
Definition C_FALSE : Z := 0.
Definition C_TRUE : Z := 1.

(** [gobool]: [b != C.FALSE]. *)
Definition gobool (b : Z) : bool := negb (Z.eqb b C_FALSE).

(** [glib.GoBool], as [isOk] documents it: 0 is false/error, everything
    else is true/ok. *)
Definition glib_GoBool (b : Z) : bool := negb (Z.eqb b 0).

Definition isOk (v : Z) : bool := glib_GoBool v.

(** [glib.GBool]: the Go boolean as a [gboolean]. *)
Definition glib_GBool (b : bool) : Z := if b then C_TRUE else C_FALSE.

(** [C.CString] makes a NUL-terminated copy of a Go string.  Whoever
    reads that copy on the C side reads it up to its first 0 byte, so the
    copy stands for the Go string cut there. *)
Fixpoint C_CString (s : string) : string :=
  match s with
  | EmptyString => EmptyString
  | String c s' =>
      if Ascii.eqb c Ascii.zero then EmptyString else String c (C_CString s')
  end.


(** [C.GoString] copies a C string back; a [NULL] [char*] reads back as
    the empty Go string. *)

Definition C_GoString (p : option string) : string :=
  match p with
  | Some s => s
  | None => ""
  end.

(** ** The world behind the bridge *)

(** Every call into the engine, with its arguments as passed. *)
Inductive Call :=
| call_resolve_rev (repo : option addr) (refspec : string) (allow_noent : Z)
| call_repo_new (path : string)
| call_repo_open (repo : option addr)
| call_pull_with_options (repo : option addr) (remote : string)
    (options : list (string * GVariant))
    (progress : option addr) (cancellable : option addr)
| call_get_config (repo : option addr)
| call_key_file_get_boolean (config : option addr) (group key : string)
| call_key_file_set_boolean (config : option addr) (group key : string) (value : Z)
| call_write_config (repo : option addr) (config : option addr).

Global Instance GVariant_eq_dec : EqDecision GVariant.
Proof. solve_decision. Defined.

Global Instance Call_eq_dec : EqDecision Call.
Proof. solve_decision. Defined.

(** [keyfiles] maps a repository object to the boolean reading of its
    in-memory key file: a (group, key) pair that is missing, or whose
    value does not parse as a boolean, has no entry.  The key file
    returned by [ostree_repo_get_config] is the repository's own, not a
    copy, so it is addressed by the repository's pointer. *)
Record World := mkWorld {
  keyfiles : gmap addr (gmap (string * string) bool);
  persisted : gmap addr (gmap (string * string) bool);
  calls : list Call
}.

Definition log (c : Call) (w : World) : World :=
  mkWorld (keyfiles w) (persisted w) (calls w ++ [c]).

(** The fallible entry points of the native library.  Each returns what
    the C function leaves behind: the [gboolean] result and the out
    parameters. *)
Record Engine := mkEngine {
  ostree_repo_resolve_rev :
    World -> option addr -> string -> Z -> Z * option string * option GError;
  ostree_repo_new : World -> string -> option addr;
  ostree_repo_open : World -> option addr -> Z * option GError;
  ostree_repo_pull_with_options :
    World -> option addr -> string -> list (string * GVariant) ->
    option addr -> option addr -> Z * option GError;
  ostree_repo_write_config :
    World -> option addr -> gmap (string * string) bool -> Z * option GError;
  (** the configuration a successful [ostree_repo_open] loads from the
      repository directory into the repository object *)
  opened_config : World -> option addr -> gmap (string * string) bool
}.

(** What the Go runtime knows about the call site: [runtime.Caller]
    reports the file and line of the caller, or [ok = false]. *)
Record Runtime := mkRuntime {
  caller_ok : bool;
  source_file : string
}.

(** ** A small state monad for the Go functions *)

Definition M (A : Type) : Type := World -> A * World.

Definition ret {A} (a : A) : M A := fun w => (a, w).

Definition bind {A B} (m : M A) (k : A -> M B) : M B :=
  fun w => let '(a, w') := m w in k a w'.

Definition native_call (c : Call) : M unit := fun w => (tt, log c w).

Definition ask {A} (f : World -> A) : M A := fun w => (f w, w).

Declare Scope go_scope.
Delimit Scope go_scope with go.
Notation "x <- m ;; k" := (bind m (fun x => k))
  (at level 100, m at next level, right associativity) : go_scope.
Notation "m ;;; k" := (bind m (fun _ => k))
  (at level 100, right associativity) : go_scope.
Open Scope go_scope.

(** ** The package's types *)

(** [Repo] represents a local ostree repository.  A [*Repo] is modelled
    by the content of the struct it points to, [None] being the nil
    pointer; which allocation holds the struct is not modelled, so two
    handles with the same content are the same value here. *)
Record Repo := mkRepo { ptr : option addr }.

Record PullOptions := mkPullOptions {
  OverrideRemoteName : string;
  Refs : list string
}.

(** Modelled from the spec: the [glib.Object] that [AsyncProgress] embeds
    is not in this package; a progress sink is an externally-owned object
    referenced by its native pointer, which [Ptr] returns. *)
Record glib_Object := mkObject { Ptr : option addr }.

Record AsyncProgress := mkAsyncProgress { Object : glib_Object }.

(** Modelled from the spec: [glib.GCancellable] is not in this package; a
    cancellation token is nullable and [Ptr] is its native pointer. *)
Definition GCancellable_Ptr (c : option addr) : option addr := c.

Definition cCancellable (c : option addr) : option addr := GCancellable_Ptr c.

(** isInitialized checks if the repo has been initialized *)
Definition isInitialized (r : option Repo) : bool :=
  match r with
  | None => false
  | Some r' =>
      match ptr r' with
      | None => false
      | Some _ => true
      end
  end.

(** native converts an ostree repo struct to its C equivalent *)
Definition native (r : option Repo) : option addr :=
  if negb (isInitialized r) then None
  else match r with
       | Some r' => ptr r'
       | None => None
       end.

(** repoFromNative takes a C ostree repo and converts it to a Go struct.
    The result is the content of the [&Repo{...}] it allocates. *)
Definition repoFromNative (or : option addr) : option Repo :=
  match or with
  | None => None
  | Some p => Some (mkRepo (Some p))
  end.

Definition AsyncProgress_native (a : option AsyncProgress) : option addr :=
  match a with
  | None => None
  | Some a' => Ptr (Object a')
  end.

(** ** The variant builder *)

(** A builder of type [a{sv}] is the list of its entries in the order
    they were added. *)
Definition g_variant_builder_new (ty : string) : list (string * GVariant) := [].

Definition g_variant_builder_add_twoargs (builder : list (string * GVariant))
    (fmt : string) (k : string) (v : GVariant) : list (string * GVariant) :=
  builder ++ [(k, v)].

Definition g_variant_builder_end (builder : list (string * GVariant))
  : list (string * GVariant) := builder.

(** [make([]*C.gchar, n)] followed by the loop
    [for i, s := range refs { crefs[i] = C.CString(s) }]. *)
Definition store_cref (crefs : list (option string)) (e : nat * string)
  : list (option string) :=
  <[e.1 := Some (C_CString e.2)]> crefs.

Definition fill_crefs (refs : list string) : list (option string) :=
  foldl store_cref (replicate (length refs) None) (imap pair refs).

(** [g_variant_new_strv(strv, length)] reads [length] strings. *)
Definition g_variant_new_strv (strv : list (option string)) (len : nat) : GVariant :=
  GVStrv (omap id (take len strv)).

(** The option bag [PullWithOptions] builds before it calls the engine
    (lines 106-134). *)
Definition build_pull_options (options : PullOptions) : list (string * GVariant) :=
  let builder := g_variant_builder_new "a{sv}" in
  let builder :=
    if negb (String.eqb (OverrideRemoteName options) "") then
      let cstr := C_CString (OverrideRemoteName options) in
      let v := GVString cstr in
      let k := C_CString "override-remote-name" in
      g_variant_builder_add_twoargs builder "{sv}" k v
    else builder in
  let builder :=
    if negb (Nat.eqb (length (Refs options)) 0) then
      let crefs := fill_crefs (Refs options) in
      let v := g_variant_new_strv crefs (length crefs) in
      let k := C_CString "refs" in
      g_variant_builder_add_twoargs builder "{sv}" k v
    else builder in
  g_variant_builder_end builder.

(** ** Key files and the native calls *)

Definition key_file_of (w : World) (config : option addr)
  : gmap (string * string) bool :=
  match config with
  | Some p => default ∅ (keyfiles w !! p)
  | None => ∅
  end.

(** [ostree_repo_get_config] hands out the repository's own key file. *)
Definition C_ostree_repo_get_config (repo : option addr) : M (option addr) :=
  native_call (call_get_config repo) ;;; ret repo.

(** [g_key_file_get_boolean] with a [NULL] error argument: [FALSE] when
    the key cannot be found or its value is not a boolean. *)
Definition C_g_key_file_get_boolean (config : option addr) (group key : string)
  : M Z :=
  native_call (call_key_file_get_boolean config group key) ;;;
  ask (fun w => glib_GBool (default false (key_file_of w config !! (group, key)))).

Definition C_g_key_file_set_boolean (config : option addr) (group key : string)
    (value : Z) : M unit :=
  native_call (call_key_file_set_boolean config group key value) ;;;
  fun w =>
    match config with
    | Some p =>
        (tt, mkWorld
               (<[p := <[(group, key) := glib_GoBool value]> (key_file_of w config)]>
                  (keyfiles w))
               (persisted w) (calls w))
    | None => (tt, w)
    end.

(** ** The error adapter *)

(** Modelled from the spec: [glib.ConvertGError] is in the glibobject
    package, not here; the adapter "preserves the underlying message text
    verbatim", so the Go error it makes carries the [GError]'s message. *)
Definition glib_ConvertGError (e : GError) : error := errors_New (message e).

(** [runtime.Caller(1)] inside [generateError], called from line [site]
    of this file. *)
Definition runtime_Caller (rt : Runtime) (site : Z) : option (string * Z) :=
  if caller_ok rt then Some (source_file rt, site) else None.

(** [fmt.Errorf("%s:%d - %s", file, line, goErr)] *)
Definition fmt_Errorf (file : string) (line : Z) (goErr : error) : error :=
  mkError (file +:+ ":" +:+ pretty line +:+ " - " +:+ Error goErr).

(** generateError wraps a GLib error into a Go one. *)
Definition generateError (rt : Runtime) (site : Z) (err : option GError)
  : option error :=
  match err with
  | None => Some (errors_New "nil GError")
  | Some e =>
      let goErr := glib_ConvertGError e in
      match runtime_Caller rt site with
      | Some (file, line) => Some (fmt_Errorf file line goErr)
      | None => Some goErr
      end
  end.

(** ** The exported operations *)

Section Otbuiltin.

Context (eng : Engine) (rt : Runtime).

Definition C_ostree_repo_resolve_rev (repo : option addr) (refspec : string)
    (allow_noent : Z) : M (Z * option string * option GError) :=
  fun w => (ostree_repo_resolve_rev eng w repo refspec allow_noent,
            log (call_resolve_rev repo refspec allow_noent) w).

Definition C_ostree_repo_new (path : string) : M (option addr) :=
  fun w => (ostree_repo_new eng w path, log (call_repo_new path) w).

(** [ostree_repo_open]: when the engine reports success, the repository
    object holds the configuration read from its directory. *)
Definition C_ostree_repo_open (repo : option addr) : M (Z * option GError) :=
  fun w =>
    let r := ostree_repo_open eng w repo in
    let w' := log (call_repo_open repo) w in
    (r, match repo with
        | Some p =>
            if glib_GoBool r.1
            then mkWorld (<[p := opened_config eng w repo]> (keyfiles w'))
                         (<[p := opened_config eng w repo]> (persisted w'))
                         (calls w')
            else w'
        | None => w'
        end).

Definition C_ostree_repo_pull_with_options (repo : option addr) (remote : string)
    (options : list (string * GVariant)) (progress cancellable : option addr)
  : M (Z * option GError) :=
  fun w => (ostree_repo_pull_with_options eng w repo remote options progress cancellable,
            log (call_pull_with_options repo remote options progress cancellable) w).

(** [ostree_repo_write_config]: when the engine reports success, the
    contents of the key file are what the repository has persisted. *)
Definition C_ostree_repo_write_config (repo config : option addr)
  : M (Z * option GError) :=
  fun w =>
    let r := ostree_repo_write_config eng w repo (key_file_of w config) in
    let w' := log (call_write_config repo config) w in
    (r, match repo with
        | Some p =>
            if glib_GoBool r.1
            then mkWorld (keyfiles w')
                         (<[p := key_file_of w config]> (persisted w'))
                         (calls w')
            else w'
        | None => w'
        end).

Definition ResolveRev (repo : option Repo) (refspec : string) (allowNoent : bool)
  : M (string * option error) :=
  let crefspec := C_CString refspec in
  res <- C_ostree_repo_resolve_rev (native repo) crefspec (glib_GBool allowNoent) ;;
  let '(r, coutrev, cerr) := res in
  if negb (gobool r) then ret ("", generateError rt 64 cerr)
  else
    let outrev := C_GoString coutrev in
    ret (outrev, None).

(** OpenRepo attempts to open the repo at the given path *)
Definition OpenRepo (path : string) : M (option Repo * option error) :=
  if String.eqb path "" then ret (None, Some (errors_New "empty path"))
  else
    let cpath := C_CString path in
    crepo <- C_ostree_repo_new cpath ;;
    let repo := repoFromNative crepo in
    res <- C_ostree_repo_open crepo ;;
    let '(r, cerr) := res in
    if negb (glib_GoBool r) then ret (None, generateError rt 89 cerr)
    else ret (repo, None).

Definition PullWithOptions (repo : option Repo) (remoteName : string)
    (options : PullOptions) (progress : option AsyncProgress)
    (cancellable : option addr) : M (option error) :=
  let cremoteName := C_CString remoteName in
  let coptions := build_pull_options options in
  res <- C_ostree_repo_pull_with_options (native repo) cremoteName coptions
           (AsyncProgress_native progress) (cCancellable cancellable) ;;
  let '(r, cerr) := res in
  if negb (gobool r) then ret (generateError rt 139 cerr)
  else ret None.

(** enableTombstoneCommits enables support for tombstone commits. *)
Definition enableTombstoneCommits (r : option Repo) : M (option error) :=
  if negb (isInitialized r) then ret (Some (errors_New "repo not initialized"))
  else
    config <- C_ostree_repo_get_config (native r) ;;
    let groupC := C_CString "core" in
    let keyC := C_CString "tombstone-commits" in
    valueC <- C_g_key_file_get_boolean config groupC keyC ;;
    let tombstoneCommits := glib_GoBool valueC in
    if negb tombstoneCommits then
      (C_g_key_file_set_boolean config groupC keyC C_TRUE ;;;
       res <- C_ostree_repo_write_config (native r) config ;;
       let '(ok, cerr) := res in
       if negb (glib_GoBool ok) then ret (generateError rt 167 cerr)
       else ret None)
    else ret None.

End Otbuiltin.

(** ** A scriptable engine *)

(** The engine used to run the operations on concrete inputs: it resolves
    refspecs from a table, answers open, pull and config writes with
    fixed results, and opens repositories with an empty configuration. *)
Definition fake_engine (refs : gmap string string)
    (open_result pull_result write_result : Z * option GError) : Engine :=
  mkEngine
    (fun _ _ refspec allow_noent =>
       match refs !! refspec with
       | Some rev => (C_TRUE, Some rev, None)
       | None =>
           if glib_GoBool allow_noent then (C_TRUE, None, None)
           else (C_FALSE, None,
                 Some (mkGError "g-io-error-quark" 1 ("Refspec '" +:+ refspec +:+ "' not found")))
       end)
    (fun _ _ => Some 1%positive)
    (fun _ _ => open_result)
    (fun _ _ _ _ _ _ => pull_result)
    (fun _ _ _ => write_result)
    (fun _ _ => ∅).

Definition ok_result : Z * option GError := (C_TRUE, None).

Definition empty_world : World := mkWorld ∅ ∅ [].

Definition go_runtime : Runtime := mkRuntime true "builtin.go".

(** The writes of the configuration among the native calls. *)
Definition is_write_config (c : Call) : bool :=
  match c with
  | call_write_config _ _ => true
  | _ => false
  end.

Definition write_count (w : World) : nat :=
  length (List.filter is_write_config (calls w)).

(** The value the repository object [p] holds for [core.tombstone-commits]. *)
Definition tombstone_flag (w : World) (p : addr) : option bool :=
  key_file_of w (Some p) !! ("core", "tombstone-commits").

(** Whether the flag reads as true, as [g_key_file_get_boolean] reports it. *)
Definition tombstone_enabled (w : World) (p : addr) : bool :=
  default false (tombstone_flag w p).

Definition tombstone_key : string * string := ("core", "tombstone-commits").

(** What the engine answers for a refspec that does not exist on the
    repository [repo]: with [allow_noent] it succeeds and leaves the out
    revision [NULL]; without it the call fails with the diagnostic [g]. *)
Definition does_not_resolve (eng : Engine) (w : World) (repo : option addr)
    (refspec : string) (g : GError) : Prop :=
  (exists ok : Z,
      gobool ok = true
      /\ ostree_repo_resolve_rev eng w repo refspec (glib_GBool true)
         = (ok, None, None))
  /\ (exists out : option string,
        ostree_repo_resolve_rev eng w repo refspec (glib_GBool false)
        = (C_FALSE, out, Some g)).

(** How the native side marks a cancelled operation: the GIO error domain
    with the code [G_IO_ERROR_CANCELLED]. *)
Definition G_IO_ERROR : string := "g-io-error-quark".
Definition G_IO_ERROR_FAILED : Z := 0.
Definition G_IO_ERROR_CANCELLED : Z := 19.

Definition is_cancellation (g : GError) : bool :=
  String.eqb (domain g) G_IO_ERROR && Z.eqb (code g) G_IO_ERROR_CANCELLED.

(** An engine whose pull fails with the error [g]. *)
Definition failing_pull (g : GError) : Engine :=
  fake_engine ∅ ok_result (C_FALSE, Some g) ok_result.

Definition cancelled_error : GError :=
  mkGError G_IO_ERROR G_IO_ERROR_CANCELLED "Operation was cancelled".

Definition transfer_error : GError :=
  mkGError G_IO_ERROR G_IO_ERROR_FAILED "Operation was cancelled".

(** The first entry stored under a key of an option bag. *)
Fixpoint bag_lookup (k : string) (bag : list (string * GVariant)) : option GVariant :=
  match bag with
  | [] => None
  | (k', v) :: rest => if String.eqb k k' then Some v else bag_lookup k rest
  end.

(** Whether a returned Go error is [nil]. *)
Definition no_error (e : option error) : bool :=
  match e with
  | None => true
  | Some _ => false
  end.

Definition no_handle (r : option Repo) : bool :=
  match r with
  | None => true
  | Some _ => false
  end.

(** The world in which [enableTombstoneCommits] asks the engine to write
    the configuration of the open repository [p], when it gets there from
    [w]: the two reads and the set have been made. *)
Definition before_write (p : addr) (w : World) : World :=
  ((C_ostree_repo_get_config (Some p) ;;;
    C_g_key_file_get_boolean (Some p) (C_CString "core")
      (C_CString "tombstone-commits") ;;;
    C_g_key_file_set_boolean (Some p) (C_CString "core")
      (C_CString "tombstone-commits") C_TRUE) w).2.

(** The engine's answer to that one write. *)
Definition write_answer (eng : Engine) (p : addr) (w : World) : Z * option GError :=
  ostree_repo_write_config eng (before_write p w) (Some p)
    (key_file_of (before_write p w) (Some p)).

Definition is_null (p : option addr) : bool :=
  match p with
  | None => true
  | Some _ => false
  end.

(** * Properties *)

(** ** Strings *)

Lemma string_app_assoc (a b c : string) : (a +:+ b) +:+ c = a +:+ (b +:+ c).
Proof.
  induction a as [|ch a IH]; [reflexivity|].
  change (String ch ((a +:+ b) +:+ c) = String ch (a +:+ b +:+ c)).
  by rewrite IH.
Qed.

Lemma string_eqb_empty (s : string) : String.eqb s "" = bool_decide (s = "").
Proof. by destruct s. Qed.

(** ** The handle *)

Lemma isInitialized_open (p : addr) : isInitialized (Some (mkRepo (Some p))) = true.
Proof. reflexivity. Qed.

Lemma isInitialized_inv (r : option Repo) :
  isInitialized r = true -> exists p, r = Some (mkRepo (Some p)).
Proof.
  destruct r as [[[p|]]|]; simpl; intros H; try discriminate.
  by exists p.
Qed.

Lemma native_unopened (r : option Repo) : isInitialized r = false -> native r = None.
Proof. unfold native. by intros ->. Qed.

Lemma native_open (p : addr) : native (Some (mkRepo (Some p))) = Some p.
Proof. reflexivity. Qed.

(** ** Opening *)

(** C5. [OpenRepo] on the empty path returns a nil handle and the
    "empty path" (invalid argument) error, and leaves the world as it
    was: no call reaches the engine, whatever the engine is. *)
Theorem OpenRepo_empty_path (eng : Engine) (rt : Runtime) (w : World) :
  OpenRepo eng rt "" w = (None, Some (errors_New "empty path"), w)
  /\ calls (OpenRepo eng rt "" w).2 = calls w.
Proof. split; reflexivity. Qed.

(** ** The error adapter *)

(** C6. A nil foreign error makes [generateError] return the non-nil
    "nil GError" error, never the nil (success) error. *)
Theorem generateError_nil (rt : Runtime) (site : Z) :
  generateError rt site None = Some (errors_New "nil GError")
  /\ generateError rt site None <> None.
Proof. split; [reflexivity | discriminate]. Qed.

(** C7. For a non-nil foreign error [g] the adapter returns an error
    whose text ends with the message of [g] unchanged: it is
    "file:line - message" when the call site is known, and the message
    alone when it is not. *)
Theorem generateError_keeps_message (rt : Runtime) (site : Z) (g : GError) :
  exists e : error,
    generateError rt site (Some g) = Some e
    /\ Error e =
         (if caller_ok rt
          then source_file rt +:+ ":" +:+ pretty site +:+ " - " +:+ message g
          else message g)
    /\ exists pre : string,
         Error e = pre +:+ message g
         /\ pre = (if caller_ok rt
                   then source_file rt +:+ ":" +:+ pretty site +:+ " - "
                   else "").
Proof.
  unfold generateError, runtime_Caller.
  destruct (caller_ok rt); eexists; (split; [reflexivity|]); simpl.
  - split; [reflexivity|].
    exists (source_file rt +:+ ":" +:+ pretty site +:+ " - ").
    split; [|reflexivity]. by rewrite !string_app_assoc.
  - split; [reflexivity|]. by exists "".
Qed.

(** ** The option bag of a pull *)

(** The loop, started at index [length pre] with [pre] already written,
    fills the next [length refs] slots and touches nothing else. *)
Lemma fill_loop (refs : list string) :
  forall (pre suf : list (option string)),
    foldl store_cref (pre ++ replicate (length refs) None ++ suf)
          (imap (fun i s => (length pre + i, s)%nat) refs)
    = pre ++ ((fun s => Some (C_CString s)) <$> refs) ++ suf.
Proof.
  induction refs as [|s refs IH]; intros pre suf; [reflexivity|].
  cbn [imap foldl length replicate fmap list_fmap].
  unfold store_cref at 2. cbn [fst snd].
  replace (length pre + 0)%nat with (length pre) by lia.
  rewrite insert_app_r_alt by lia.
  replace (length pre - length pre)%nat with 0%nat by lia.
  cbn [app]. cbn [insert list_insert].
  specialize (IH (pre ++ [Some (C_CString s)]) suf).
  rewrite <- !app_assoc in IH. cbn [app] in IH.
  rewrite <- IH. f_equal.
  apply imap_ext. intros i x _. cbn. rewrite length_app. cbn. f_equal. lia.
Qed.

Lemma fill_crefs_spec (refs : list string) :
  fill_crefs refs = (fun s => Some (C_CString s)) <$> refs.
Proof.
  pose proof (fill_loop refs [] []) as H.
  cbn [app length] in H. rewrite !app_nil_r in H. exact H.
Qed.

Lemma g_variant_new_strv_crefs (refs : list string) :
  g_variant_new_strv (fill_crefs refs) (length (fill_crefs refs))
  = GVStrv (C_CString <$> refs).
Proof.
  unfold g_variant_new_strv. rewrite fill_crefs_spec, firstn_all. f_equal.
  induction refs as [|s refs IH]; [reflexivity|]. cbn. by rewrite IH.
Qed.



(** The bag has the override entry when the name is not empty, then the
    refs entry when there are refs, and nothing else; the values are the
    C copies of the strings. *)
Lemma build_pull_options_spec (options : PullOptions) :
  build_pull_options options =
    (if bool_decide (OverrideRemoteName options = "") then []
     else [("override-remote-name",
            GVString (C_CString (OverrideRemoteName options)))])
    ++ (if bool_decide (Refs options = []) then []
        else [("refs", GVStrv (C_CString <$> Refs options))]).
Proof.
  unfold build_pull_options, g_variant_builder_end, g_variant_builder_add_twoargs,
    g_variant_builder_new.
  change (C_CString "override-remote-name") with "override-remote-name".
  change (C_CString "refs") with "refs".
  rewrite g_variant_new_strv_crefs, string_eqb_empty.
  destruct options as [name refs]; cbn [OverrideRemoteName Refs].
  destruct (bool_decide (name = "")); destruct refs; reflexivity.
Qed.

Lemma PullWithOptions_run (eng : Engine) (rt : Runtime) (repo : option Repo)
    (remoteName : string) (options : PullOptions)
    (progress : option AsyncProgress) (cancellable : option addr) (w : World) :
  PullWithOptions eng rt repo remoteName options progress cancellable w =
    (let res := ostree_repo_pull_with_options eng w (native repo)
                  (C_CString remoteName) (build_pull_options options)
                  (AsyncProgress_native progress) cancellable in
     if gobool res.1 then None else generateError rt 139 res.2,
     log (call_pull_with_options (native repo) (C_CString remoteName)
            (build_pull_options options)
            (AsyncProgress_native progress) cancellable) w).
Proof.
  unfold PullWithOptions, bind, C_ostree_repo_pull_with_options, ret,
    cCancellable, GCancellable_Ptr.
  destruct (ostree_repo_pull_with_options _ _ _ _ _ _ _) as [r cerr].
  cbn. by destruct (gobool r).
Qed.




(** Whatever the strings, the values of the two entries are the C copies
    of the override name and of the refs, in order. *)
Lemma PullWithOptions_option_bag_copies (options : PullOptions) :
  bag_lookup "override-remote-name" (build_pull_options options)
  = (if bool_decide (OverrideRemoteName options = "") then None
     else Some (GVString (C_CString (OverrideRemoteName options))))
  /\ bag_lookup "refs" (build_pull_options options)
     = (if bool_decide (Refs options = []) then None
        else Some (GVStrv (C_CString <$> Refs options))).
Proof.
  rewrite build_pull_options_spec.
  destruct (bool_decide (OverrideRemoteName options = ""));
    destruct (bool_decide (Refs options = [])); split; reflexivity.
Qed.

Example build_pull_options_both :
  build_pull_options (mkPullOptions "mirror" ["x86/stable"; "arm/stable"])
  = [("override-remote-name", GVString "mirror");
     ("refs", GVStrv ["x86/stable"; "arm/stable"])].
Proof. reflexivity. Qed.

(** ** Tombstone commits *)

Lemma key_file_of_insert (w : World) (p : addr) (kf : gmap (string * string) bool)
    (ps : gmap addr (gmap (string * string) bool)) (cs : list Call) :
  key_file_of (mkWorld (<[p := kf]> (keyfiles w)) ps cs) (Some p) = kf.
Proof. unfold key_file_of. cbn. by rewrite lookup_insert_eq. Qed.

(** What one call does on an open handle: two reads; and, when the flag
    does not read as true, the update of the repository's own key file
    followed by the write. *)
Lemma enableTombstoneCommits_run (eng : Engine) (rt : Runtime) (p : addr) (w : World) :
  enableTombstoneCommits eng rt (Some (mkRepo (Some p))) w =
    let kf := key_file_of w (Some p) in
    let reads := [call_get_config (Some p);
                  call_key_file_get_boolean (Some p) "core" "tombstone-commits"] in
    if tombstone_enabled w p
    then (None, mkWorld (keyfiles w) (persisted w) (calls w ++ reads))
    else
      let kf' := <[tombstone_key := true]> kf in
      let cs := calls w ++ reads ++
                [call_key_file_set_boolean (Some p) "core" "tombstone-commits" C_TRUE] in
      let w3 := mkWorld (<[p := kf']> (keyfiles w)) (persisted w) cs in
      let res := ostree_repo_write_config eng w3 (Some p) kf' in
      (if glib_GoBool res.1 then None else generateError rt 167 res.2,
       mkWorld (keyfiles w3)
               (if glib_GoBool res.1 then <[p := kf']> (persisted w) else persisted w)
               (cs ++ [call_write_config (Some p) (Some p)])).
Proof.
  unfold enableTombstoneCommits, tombstone_enabled, tombstone_flag.
  cbn [isInitialized ptr negb native].
  change (C_CString "core") with "core".
  change (C_CString "tombstone-commits") with "tombstone-commits".
  cbv beta iota zeta delta [bind C_ostree_repo_get_config C_g_key_file_get_boolean
    C_g_key_file_set_boolean C_ostree_repo_write_config native_call ask ret
    log tombstone_key key_file_of].
  cbn [calls keyfiles persisted fst snd].
  destruct (default false (default ∅ (keyfiles w !! p) !! ("core", "tombstone-commits")))
    eqn:Hflag; cbn [glib_GBool glib_GoBool C_TRUE C_FALSE Z.eqb negb];
    cbn [calls keyfiles persisted fst snd].
  - rewrite <- app_assoc. reflexivity.
  - rewrite lookup_insert_eq. cbn [default from_option id].
    rewrite <- !app_assoc. cbn [app].
    match goal with
    | |- context [ostree_repo_write_config ?e ?w' ?r ?k] =>
        destruct (ostree_repo_write_config e w' r k) as [ok cerr]
    end.
    cbn [fst snd]. by destruct (glib_GoBool ok).
Qed.

Lemma tombstone_enabled_after_set (w : World) (p : addr)
    (ps : gmap addr (gmap (string * string) bool)) (cs : list Call) :
  tombstone_enabled
    (mkWorld (<[p := <[tombstone_key := true]> (key_file_of w (Some p))]> (keyfiles w))
             ps cs) p = true.
Proof.
  unfold tombstone_enabled, tombstone_flag. rewrite key_file_of_insert.
  unfold tombstone_key. by rewrite lookup_insert_eq.
Qed.

Lemma write_count_calls (ks ps : gmap addr (gmap (string * string) bool))
    (cs cs' : list Call) :
  write_count (mkWorld ks ps (cs ++ cs'))
  = (write_count (mkWorld ks ps cs)
     + length (List.filter is_write_config cs'))%nat.
Proof. unfold write_count. cbn. by rewrite List.filter_app, length_app. Qed.

(** C3. On an open handle a second call of [enableTombstoneCommits],
    right after a first one, leaves the in-memory and the persisted
    configuration as the first call left them, writes nothing and returns
    no error; and the first call writes exactly when the flag did not
    already read as true. *)
Theorem enableTombstoneCommits_idempotent (eng : Engine) (rt : Runtime)
    (p : addr) (w : World) :
  let r := Some (mkRepo (Some p)) in
  let once := enableTombstoneCommits eng rt r w in
  let twice := enableTombstoneCommits eng rt r once.2 in
  keyfiles twice.2 = keyfiles once.2
  /\ persisted twice.2 = persisted once.2
  /\ write_count twice.2 = write_count once.2
  /\ twice.1 = None
  /\ tombstone_enabled once.2 p = true
  /\ write_count once.2
     = (write_count w + (if tombstone_enabled w p then 0 else 1))%nat.
Proof.
  intros r once twice. subst twice once r.
  assert (Hon : tombstone_enabled (enableTombstoneCommits eng rt (Some (mkRepo (Some p))) w).2 p = true
          /\ write_count (enableTombstoneCommits eng rt (Some (mkRepo (Some p))) w).2
             = (write_count w + (if tombstone_enabled w p then 0 else 1))%nat).
  { rewrite enableTombstoneCommits_run. cbv zeta.
    destruct (tombstone_enabled w p) eqn:Hflag; cbn [snd].
    - split; [exact Hflag|].
      destruct w as [ks ps cs]. cbn [keyfiles persisted calls].
      rewrite write_count_calls. reflexivity.
    - split; [apply tombstone_enabled_after_set|].
      destruct w as [ks ps cs]. cbn [keyfiles persisted calls].
      unfold write_count. cbn [calls]. rewrite !List.filter_app, !length_app.
      cbn. lia. }
  destruct Hon as [Hon Hcount].
  rewrite (enableTombstoneCommits_run eng rt p
             (enableTombstoneCommits eng rt (Some (mkRepo (Some p))) w).2).
  cbv zeta. rewrite Hon. cbn [fst snd keyfiles persisted].
  repeat split; try assumption.
  destruct (enableTombstoneCommits eng rt (Some (mkRepo (Some p))) w).2 as [ks ps cs].
  cbn [keyfiles persisted calls]. rewrite write_count_calls. cbn. lia.
Qed.

(** C9. When [core.tombstone-commits] has no entry in the configuration
    of an open repository, [enableTombstoneCommits] reads it as false:
    it sets the key to true in the repository's key file and asks the
    engine to write the configuration. *)
Theorem enableTombstoneCommits_absent_key (eng : Engine) (rt : Runtime)
    (p : addr) (w : World) :
  tombstone_flag w p = None ->
  let res := enableTombstoneCommits eng rt (Some (mkRepo (Some p))) w in
  tombstone_flag res.2 p = Some true
  /\ write_count res.2 = S (write_count w)
  /\ calls res.2
     = calls w ++
       [call_get_config (Some p);
        call_key_file_get_boolean (Some p) "core" "tombstone-commits";
        call_key_file_set_boolean (Some p) "core" "tombstone-commits" C_TRUE;
        call_write_config (Some p) (Some p)].
Proof.
  intros Habsent res. subst res.
  rewrite enableTombstoneCommits_run. cbv zeta.
  unfold tombstone_enabled. rewrite Habsent.
  cbn [default from_option snd keyfiles persisted calls].
  split; [|split].
  - unfold tombstone_flag. rewrite key_file_of_insert.
    unfold tombstone_key. by rewrite lookup_insert_eq.
  - destruct w as [ks ps cs]. unfold write_count. cbn [calls keyfiles persisted].
    rewrite !List.filter_app, !length_app. cbn. lia.
  - cbn [calls]. by rewrite <- !app_assoc.
Qed.

Lemma enableTombstoneCommits_absent_key_witness :
  let eng := fake_engine ∅ ok_result ok_result ok_result in
  let res := enableTombstoneCommits eng go_runtime (Some (mkRepo (Some 1%positive)))
               empty_world in
  tombstone_flag empty_world 1%positive = None
  /\ tombstone_flag res.2 1%positive = Some true
  /\ write_count res.2 = S (write_count empty_world)
  /\ calls res.2
     = calls empty_world ++
       [call_get_config (Some 1%positive);
        call_key_file_get_boolean (Some 1%positive) "core" "tombstone-commits";
        call_key_file_set_boolean (Some 1%positive) "core" "tombstone-commits" C_TRUE;
        call_write_config (Some 1%positive) (Some 1%positive)].
Proof.
  intros eng res. split; [reflexivity|].
  exact (enableTombstoneCommits_absent_key eng go_runtime 1%positive empty_world
           eq_refl).
Defined.

(** A first call whose write fails still leaves the flag set in the
    repository's key file, so the second call does not write again. *)
Example enableTombstoneCommits_twice_failed_write :
  let eng := fake_engine ∅ ok_result ok_result
               (C_FALSE, Some (mkGError G_IO_ERROR 14 "Permission denied")) in
  let r := Some (mkRepo (Some 1%positive)) in
  let once := enableTombstoneCommits eng go_runtime r empty_world in
  let twice := enableTombstoneCommits eng go_runtime r once.2 in
  once.1 = Some (mkError "builtin.go:167 - Permission denied")
  /\ write_count once.2 = 1%nat
  /\ persisted once.2 = ∅
  /\ twice.1 = None
  /\ write_count twice.2 = 1%nat.
Proof. repeat split. Qed.

(** ** Resolving a revision *)

Lemma ResolveRev_run (eng : Engine) (rt : Runtime) (repo : option Repo)
    (refspec : string) (allowNoent : bool) (w : World) :
  ResolveRev eng rt repo refspec allowNoent w =
    (let res := ostree_repo_resolve_rev eng w (native repo) (C_CString refspec)
                  (glib_GBool allowNoent) in
     if gobool res.1.1 then (C_GoString res.1.2, None)
     else ("", generateError rt 64 res.2),
     log (call_resolve_rev (native repo) (C_CString refspec)
            (glib_GBool allowNoent)) w).
Proof.
  unfold ResolveRev, bind, C_ostree_repo_resolve_rev, ret.
  destruct (ostree_repo_resolve_rev _ _ _ _ _) as [[r coutrev] cerr].
  cbn. by destruct (gobool r).
Qed.

(** C4. On an open handle, for a refspec the engine does not resolve,
    [ResolveRev] with [allowNoent = true] returns the empty string and no
    error, and with [allowNoent = false] returns the empty string and the
    non-nil error made from the engine's diagnostic. *)
Theorem ResolveRev_missing (eng : Engine) (rt : Runtime) (p : addr)
    (refspec : string) (w : World) (g : GError) :
  does_not_resolve eng w (Some p) (C_CString refspec) g ->
  (ResolveRev eng rt (Some (mkRepo (Some p))) refspec true w).1 = ("", None)
  /\ (ResolveRev eng rt (Some (mkRepo (Some p))) refspec false w).1
     = ("", generateError rt 64 (Some g))
  /\ generateError rt 64 (Some g) <> None.
Proof.
  intros [[ok [Hok Hallow]] [out Hdeny]].
  rewrite !ResolveRev_run, native_open. cbv zeta. rewrite Hallow, Hdeny.
  cbn [fst snd]. rewrite Hok.
  split; [reflexivity|]. split; [reflexivity|].
  destruct (generateError_keeps_message rt 64 g) as [e [-> _]]. discriminate.
Qed.

Lemma ResolveRev_missing_witness :
  let eng := fake_engine {[ "main" := "4a1c" ]} ok_result ok_result ok_result in
  let g := mkGError "g-io-error-quark" 1 "Refspec 'gone' not found" in
  does_not_resolve eng empty_world (Some 1%positive) "gone" g
  /\ (ResolveRev eng go_runtime (Some (mkRepo (Some 1%positive))) "gone" true
        empty_world).1 = ("", None)
  /\ (ResolveRev eng go_runtime (Some (mkRepo (Some 1%positive))) "gone" false
        empty_world).1 = ("", generateError go_runtime 64 (Some g))
  /\ generateError go_runtime 64 (Some g) <> None.
Proof.
  intros eng g.
  assert (H : does_not_resolve eng empty_world (Some 1%positive) "gone" g).
  { split; [exists C_TRUE; split; reflexivity | exists None; reflexivity]. }
  split; [exact H|].
  exact (ResolveRev_missing eng go_runtime 1%positive "gone" empty_world g H).
Defined.

(** ** Unopened handles *)

(** The guard of [enableTombstoneCommits]: on an unopened handle it
    returns "repo not initialized" and touches nothing. *)
Lemma enableTombstoneCommits_unopened (eng : Engine) (rt : Runtime)
    (r : option Repo) (w : World) :
  isInitialized r = false ->
  enableTombstoneCommits eng rt r w = (Some (errors_New "repo not initialized"), w).
Proof. intros H. unfold enableTombstoneCommits. by rewrite H. Qed.

(** C1. On the nil handle only [enableTombstoneCommits] stops at the
    guard.  [ResolveRev] and [PullWithOptions] have no guard: each makes
    its engine call with a [NULL] repository, and returns what the engine
    answers to that call. *)
Theorem unopened_handle_reaches_engine (eng : Engine) (rt : Runtime) (w : World)
    (refspec : string) (allowNoent : bool) (remoteName : string)
    (options : PullOptions) (progress : option AsyncProgress)
    (cancellable : option addr) :
  calls (ResolveRev eng rt None refspec allowNoent w).2
    = calls w ++ [call_resolve_rev None (C_CString refspec) (glib_GBool allowNoent)]
  /\ calls (PullWithOptions eng rt None remoteName options progress cancellable w).2
     = calls w ++ [call_pull_with_options None (C_CString remoteName)
                     (build_pull_options options)
                     (AsyncProgress_native progress) cancellable]
  /\ enableTombstoneCommits eng rt None w
     = (Some (errors_New "repo not initialized"), w)
  /\ (ResolveRev eng rt None refspec allowNoent w).1
     = (let res := ostree_repo_resolve_rev eng w None (C_CString refspec)
                     (glib_GBool allowNoent) in
        if gobool res.1.1 then (C_GoString res.1.2, None)
        else ("", generateError rt 64 res.2)).
Proof.
  rewrite ResolveRev_run, PullWithOptions_run.
  repeat split.
Qed.

(** ** Pulling *)

(** C8, as stated, fails: a pull the engine reports as cancelled and a
    pull the engine reports as failed, with the same message, give the
    same Go error; the domain and code that tell them apart are dropped. *)
Lemma PullWithOptions_cancel_not_distinct :
  is_cancellation cancelled_error = true
  /\ is_cancellation transfer_error = false
  /\ (PullWithOptions (failing_pull cancelled_error) go_runtime
        (Some (mkRepo (Some 1%positive))) "origin" (mkPullOptions "" [])
        None (Some 7%positive) empty_world).1
     = (PullWithOptions (failing_pull transfer_error) go_runtime
          (Some (mkRepo (Some 1%positive))) "origin" (mkPullOptions "" [])
          None (Some 7%positive) empty_world).1
  /\ (PullWithOptions (failing_pull cancelled_error) go_runtime
        (Some (mkRepo (Some 1%positive))) "origin" (mkPullOptions "" [])
        None (Some 7%positive) empty_world).1
     = Some (mkError "builtin.go:139 - Operation was cancelled").
Proof. repeat split. Qed.

(** No reading of the returned error can recover whether the engine
    reported a cancellation. *)
Lemma no_cancelled_kind :
  ~ exists classify : option error -> bool,
      forall g : GError,
        classify (PullWithOptions (failing_pull g) go_runtime
                    (Some (mkRepo (Some 1%positive))) "origin" (mkPullOptions "" [])
                    None (Some 7%positive) empty_world).1
        = is_cancellation g.
Proof.
  intros [classify H].
  pose proof (H cancelled_error) as Hc. pose proof (H transfer_error) as Ht.
  change (is_cancellation cancelled_error) with true in Hc.
  change (is_cancellation transfer_error) with false in Ht.
  assert (E : (PullWithOptions (failing_pull cancelled_error) go_runtime
                 (Some (mkRepo (Some 1%positive))) "origin" (mkPullOptions "" [])
                 None (Some 7%positive) empty_world).1
              = (PullWithOptions (failing_pull transfer_error) go_runtime
                   (Some (mkRepo (Some 1%positive))) "origin" (mkPullOptions "" [])
                   None (Some 7%positive) empty_world).1) by reflexivity.
  rewrite E in Hc. congruence.
Qed.

(** C8, amended. When the engine reports the pull as cancelled, failing
    with the error [g], [PullWithOptions] returns the error the adapter
    makes from [g] at line 139: it is not nil, so it differs from
    success, and it is the error any failure with the same message
    gives. *)
Theorem PullWithOptions_cancelled (eng : Engine) (rt : Runtime)
    (repo : option Repo) (remoteName : string) (options : PullOptions)
    (progress : option AsyncProgress) (cancellable : option addr) (w : World)
    (g : GError) :
  is_cancellation g = true ->
  ostree_repo_pull_with_options eng w (native repo) (C_CString remoteName)
    (build_pull_options options) (AsyncProgress_native progress) cancellable
  = (C_FALSE, Some g) ->
  let res := (PullWithOptions eng rt repo remoteName options progress cancellable w).1 in
  res = generateError rt 139 (Some g)
  /\ res <> None
  /\ res = generateError rt 139 (Some (mkGError "" G_IO_ERROR_FAILED (message g))).
Proof.
  intros _ Hfail res. subst res.
  rewrite PullWithOptions_run. cbv zeta. rewrite Hfail. cbn [fst snd].
  change (gobool C_FALSE) with false. cbv iota.
  split; [reflexivity|]. split; [|reflexivity].
  destruct (generateError_keeps_message rt 139 g) as [e [-> _]]. discriminate.
Qed.

Lemma PullWithOptions_cancelled_witness :
  let res := (PullWithOptions (failing_pull cancelled_error) go_runtime
                (Some (mkRepo (Some 1%positive))) "origin" (mkPullOptions "" ["main"])
                None (Some 7%positive) empty_world).1 in
  is_cancellation cancelled_error = true
  /\ res = generateError go_runtime 139 (Some cancelled_error)
  /\ res <> None
  /\ res = generateError go_runtime 139
             (Some (mkGError "" G_IO_ERROR_FAILED (message cancelled_error))).
Proof.
  intros res. split; [reflexivity|].
  exact (PullWithOptions_cancelled (failing_pull cancelled_error) go_runtime
           (Some (mkRepo (Some 1%positive))) "origin" (mkPullOptions "" ["main"])
           None (Some 7%positive) empty_world cancelled_error
           eq_refl eq_refl).
Defined.

(** C10. A nil progress argument becomes the [NULL] native progress
    reference of the engine's pull call, and the call is made and its
    result returned in the same way as for a progress sink [a], whose
    native pointer is passed instead. *)
Theorem PullWithOptions_nil_progress (eng : Engine) (rt : Runtime)
    (repo : option Repo) (remoteName : string) (options : PullOptions)
    (cancellable : option addr) (w : World) :
  let run (progress : option addr) :=
    (let res := ostree_repo_pull_with_options eng w (native repo)
                  (C_CString remoteName) (build_pull_options options)
                  progress cancellable in
     if gobool res.1 then None else generateError rt 139 res.2,
     log (call_pull_with_options (native repo) (C_CString remoteName)
            (build_pull_options options) progress cancellable) w) in
  AsyncProgress_native None = None
  /\ PullWithOptions eng rt repo remoteName options None cancellable w = run None
  /\ forall a : AsyncProgress,
       PullWithOptions eng rt repo remoteName options (Some a) cancellable w
       = run (Ptr (Object a)).
Proof.
  intros run. subst run. split; [reflexivity|].
  split; [|intros a]; apply PullWithOptions_run.
Qed.

(** * Further properties of the package *)

(** ** Handles and native pointers *)

(** X1. Wrapping a native pointer and unwrapping it again gives the
    pointer back, [NULL] included, and the wrapped handle counts as
    initialized exactly when the pointer is not [NULL]. *)
Theorem native_repoFromNative (or : option addr) :
  native (repoFromNative or) = or
  /\ isInitialized (repoFromNative or)
     = match or with Some _ => true | None => false end.
Proof. destruct or; split; reflexivity. Qed.

(** ** Opening a repository *)

Lemma C_ostree_repo_open_calls (eng : Engine) (repo : option addr) (w : World) :
  calls (C_ostree_repo_open eng repo w).2 = calls w ++ [call_repo_open repo].
Proof.
  unfold C_ostree_repo_open. cbn [snd].
  destruct repo; [destruct (glib_GoBool _)|]; reflexivity.
Qed.

Lemma OpenRepo_run (eng : Engine) (rt : Runtime) (path : string) (w : World) :
  path <> "" ->
  OpenRepo eng rt path w =
    (let crepo := ostree_repo_new eng w (C_CString path) in
     let w1 := log (call_repo_new (C_CString path)) w in
     let res := ostree_repo_open eng w1 crepo in
     (if glib_GoBool res.1 then (repoFromNative crepo, None)
      else (None, generateError rt 89 res.2),
      (C_ostree_repo_open eng crepo w1).2)).
Proof.
  intros Hpath. unfold OpenRepo.
  rewrite string_eqb_empty, bool_decide_eq_false_2 by exact Hpath.
  unfold bind, C_ostree_repo_new, C_ostree_repo_open, ret. cbv zeta.
  destruct (ostree_repo_open _ _ _) as [r cerr]. cbn [fst snd].
  by destruct (glib_GoBool r).
Qed.

Lemma generateError_not_nil (rt : Runtime) (site : Z) (err : option GError) :
  no_error (generateError rt site err) = false.
Proof.
  unfold generateError, runtime_Caller.
  destruct err; [destruct (caller_ok rt)|]; reflexivity.
Qed.

(** X4. For every path, [OpenRepo] never returns both a handle and an
    error: a handle that is not nil is initialized and comes with the nil
    error.  It returns neither, the nil handle with the nil error,
    exactly when the path is not empty, the engine made no repository
    object ([NULL]) and the open on it reported success. *)
Theorem OpenRepo_handle_or_error (eng : Engine) (rt : Runtime) (path : string)
    (w : World) :
  let res := (OpenRepo eng rt path w).1 in
  let crepo := ostree_repo_new eng w (C_CString path) in
  let opened := ostree_repo_open eng (log (call_repo_new (C_CString path)) w) crepo in
  match res.1 with
  | Some r => isInitialized (Some r) = true /\ res.2 = None
  | None => True
  end
  /\ no_error res.2 || no_handle res.1 = true
  /\ no_error res.2 && no_handle res.1
     = negb (bool_decide (path = "")) && is_null crepo && glib_GoBool opened.1.
Proof.
  intros res crepo opened. subst res crepo opened.
  destruct (decide (path = "")) as [->|Hpath].
  - cbn. split; [exact I | split; reflexivity].
  - rewrite OpenRepo_run by exact Hpath. cbv zeta.
    rewrite (bool_decide_eq_false_2 _ Hpath). cbn [negb andb].
    destruct (ostree_repo_open _ _ _) as [r cerr]. cbn [fst snd].
    destruct (glib_GoBool r); cbn [fst snd].
    + destruct (ostree_repo_new eng w (C_CString path)); cbn;
        repeat split; reflexivity.
    + split; [exact I|].
      rewrite generateError_not_nil, andb_false_r. split; reflexivity.
Qed.

(** The guard of [OpenRepo] is on the Go string: a path that starts with
    a 0 byte is not empty, so the engine is called, with the empty C
    path. *)
Example OpenRepo_nul_path :
  calls (OpenRepo (fake_engine ∅ ok_result ok_result ok_result) go_runtime
           (String Ascii.zero "repo") empty_world).2
  = [call_repo_new ""; call_repo_open (Some 1%positive)].
Proof. reflexivity. Qed.

(** X5. On a non-empty path, when the engine's open fails with the error
    [g], [OpenRepo] returns the nil handle and the error made from [g] at
    line 89, after exactly two engine calls: the construction of the
    repository object and the open on that same object. *)
Theorem OpenRepo_open_fails (eng : Engine) (rt : Runtime) (path : string)
    (w : World) (g : GError) :
  path <> "" ->
  ostree_repo_open eng (log (call_repo_new (C_CString path)) w)
    (ostree_repo_new eng w (C_CString path))
  = (C_FALSE, Some g) ->
  (OpenRepo eng rt path w).1 = (None, generateError rt 89 (Some g))
  /\ calls (OpenRepo eng rt path w).2
     = calls w ++ [call_repo_new (C_CString path);
                   call_repo_open (ostree_repo_new eng w (C_CString path))].
Proof.
  intros Hpath Hopen. rewrite OpenRepo_run by exact Hpath. cbv zeta.
  rewrite Hopen. cbn [fst snd]. rewrite C_ostree_repo_open_calls. cbn [log calls].
  split; [reflexivity|]. by rewrite <- app_assoc.
Qed.

Lemma OpenRepo_open_fails_witness :
  let eng := fake_engine ∅ (C_FALSE, Some (mkGError G_IO_ERROR 1 "No such file"))
               ok_result ok_result in
  (OpenRepo eng go_runtime "/srv/repo" empty_world).1
  = (None, Some (mkError "builtin.go:89 - No such file"))
  /\ calls (OpenRepo eng go_runtime "/srv/repo" empty_world).2
     = [call_repo_new "/srv/repo"; call_repo_open (Some 1%positive)].
Proof.
  intros eng.
  exact (OpenRepo_open_fails eng go_runtime "/srv/repo" empty_world
           (mkGError G_IO_ERROR 1 "No such file")
           ltac:(discriminate) eq_refl).
Defined.

(** X6. On a non-empty path, when the engine makes the repository object
    [p] and its open reports success, [OpenRepo] returns no error and a
    handle that is initialized and whose native pointer is [p]. *)
Theorem OpenRepo_success (eng : Engine) (rt : Runtime) (path : string)
    (w : World) (p : addr) :
  path <> "" ->
  ostree_repo_new eng w (C_CString path) = Some p ->
  gobool (ostree_repo_open eng (log (call_repo_new (C_CString path)) w) (Some p)).1
  = true ->
  let res := (OpenRepo eng rt path w).1 in
  res.2 = None
  /\ isInitialized res.1 = true
  /\ native res.1 = Some p.
Proof.
  intros Hpath Hnew Hopen res. subst res.
  rewrite OpenRepo_run by exact Hpath. cbv zeta. rewrite Hnew.
  change (glib_GoBool ?x) with (gobool x). rewrite Hopen.
  repeat split.
Qed.

Lemma OpenRepo_success_witness :
  let eng := fake_engine ∅ ok_result ok_result ok_result in
  let res := (OpenRepo eng go_runtime "/srv/repo" empty_world).1 in
  res.2 = None
  /\ isInitialized res.1 = true
  /\ native res.1 = Some 1%positive.
Proof.
  intros eng.
  exact (OpenRepo_success eng go_runtime "/srv/repo" empty_world 1%positive
           ltac:(discriminate) eq_refl eq_refl).
Defined.

(** ** Resolving and pulling *)

(** X8. [ResolveRev] returns the nil error exactly when the engine's
    result is not zero.  It then returns the revision the engine left in
    the out parameter, the empty string for [NULL]; otherwise it returns
    the empty string, whatever the out parameter holds. *)
Theorem ResolveRev_result (eng : Engine) (rt : Runtime) (repo : option Repo)
    (refspec : string) (allowNoent : bool) (w : World) :
  let res := (ResolveRev eng rt repo refspec allowNoent w).1 in
  let ans := ostree_repo_resolve_rev eng w (native repo) (C_CString refspec)
               (glib_GBool allowNoent) in
  no_error res.2 = gobool ans.1.1
  /\ res.1 = (if gobool ans.1.1 then C_GoString ans.1.2 else "").
Proof.
  intros res ans. subst res ans. rewrite ResolveRev_run. cbv zeta.
  destruct (ostree_repo_resolve_rev _ _ _ _ _) as [[r out] cerr]. cbn [fst snd].
  destruct (gobool r); cbn [fst snd]; [split; reflexivity|].
  split; [apply generateError_not_nil | reflexivity].
Qed.

(** X9. When the engine's resolve fails without setting an error,
    [ResolveRev] still returns a non-nil error, the "nil GError" one. *)
Theorem ResolveRev_fails_without_error (eng : Engine) (rt : Runtime)
    (repo : option Repo) (refspec : string) (allowNoent : bool) (w : World)
    (out : option string) :
  ostree_repo_resolve_rev eng w (native repo) (C_CString refspec)
    (glib_GBool allowNoent)
  = (C_FALSE, out, None) ->
  (ResolveRev eng rt repo refspec allowNoent w).1
  = ("", Some (errors_New "nil GError")).
Proof.
  intros Hfail. rewrite ResolveRev_run. cbv zeta. by rewrite Hfail.
Qed.

Lemma ResolveRev_fails_without_error_witness :
  let eng := mkEngine (fun _ _ _ _ => (C_FALSE, Some "stale", None))
               (fun _ _ => None) (fun _ _ => ok_result)
               (fun _ _ _ _ _ _ => ok_result) (fun _ _ _ => ok_result)
               (fun _ _ => ∅) in
  (ResolveRev eng go_runtime None "main" true empty_world).1
  = ("", Some (errors_New "nil GError")).
Proof.
  intros eng.
  exact (ResolveRev_fails_without_error eng go_runtime None "main" true
           empty_world (Some "stale") eq_refl).
Defined.

(** X10. [PullWithOptions] returns the nil error exactly when the
    engine's result is not zero, and it makes one engine call whether the
    pull succeeds or fails: nothing is retried. *)
Theorem PullWithOptions_result (eng : Engine) (rt : Runtime) (repo : option Repo)
    (remoteName : string) (options : PullOptions)
    (progress : option AsyncProgress) (cancellable : option addr) (w : World) :
  let run := PullWithOptions eng rt repo remoteName options progress cancellable w in
  let ans := ostree_repo_pull_with_options eng w (native repo)
               (C_CString remoteName) (build_pull_options options)
               (AsyncProgress_native progress) cancellable in
  no_error run.1 = gobool ans.1
  /\ length (calls run.2) = S (length (calls w)).
Proof.
  intros run ans. subst run ans. rewrite PullWithOptions_run. cbv zeta.
  cbn [fst snd log calls]. rewrite length_app. cbn [length].
  split; [|lia].
  destruct (gobool _); [reflexivity | apply generateError_not_nil].
Qed.

(** ** Tombstone commits, further *)

(** After a call on an open handle the flag reads as true. *)
Lemma enableTombstoneCommits_sets_flag (eng : Engine) (rt : Runtime) (p : addr)
    (w : World) :
  tombstone_enabled (enableTombstoneCommits eng rt (Some (mkRepo (Some p))) w).2 p
  = true.
Proof.
  rewrite enableTombstoneCommits_run. cbv zeta.
  destruct (tombstone_enabled w p) eqn:Hflag; cbn [snd];
    [exact Hflag | apply tombstone_enabled_after_set].
Qed.

Lemma write_answer_eq (eng : Engine) (p : addr) (w : World) :
  write_answer eng p w =
    ostree_repo_write_config eng
      (mkWorld (<[p := <[tombstone_key := true]> (key_file_of w (Some p))]> (keyfiles w))
               (persisted w)
               (calls w ++
                [call_get_config (Some p);
                 call_key_file_get_boolean (Some p) "core" "tombstone-commits"] ++
                [call_key_file_set_boolean (Some p) "core" "tombstone-commits" C_TRUE]))
      (Some p) (<[tombstone_key := true]> (key_file_of w (Some p))).
Proof.
  unfold write_answer, before_write.
  change (C_CString "core") with "core".
  change (C_CString "tombstone-commits") with "tombstone-commits".
  cbv beta iota zeta delta [bind C_ostree_repo_get_config C_g_key_file_get_boolean
    C_g_key_file_set_boolean native_call ask ret log].
  cbn [calls keyfiles persisted fst snd].
  change (key_file_of (mkWorld (keyfiles w) (persisted w) ?c) (Some p))
    with (key_file_of w (Some p)).
  rewrite key_file_of_insert, <- !app_assoc. reflexivity.
Qed.

Lemma write_count_after_write (eng : Engine) (rt : Runtime) (p : addr) (w : World) :
  tombstone_enabled w p = false ->
  write_count (enableTombstoneCommits eng rt (Some (mkRepo (Some p))) w).2
  = S (write_count w).
Proof.
  intros Hflag. rewrite enableTombstoneCommits_run. cbv zeta. rewrite Hflag.
  destruct w as [ks ps cs]. unfold write_count. cbn [snd calls keyfiles persisted].
  rewrite !List.filter_app, !length_app. cbn. lia.
Qed.

(** X11. When the flag does not read as true and the engine answers the
    write of this call with a failure and the error [g],
    [enableTombstoneCommits] returns the error made from [g] at line 167
    after that one write; the flag is nevertheless set in the
    repository's in-memory key file. *)
Theorem enableTombstoneCommits_write_fails (eng : Engine) (rt : Runtime)
    (p : addr) (w : World) (g : GError) :
  tombstone_enabled w p = false ->
  write_answer eng p w = (C_FALSE, Some g) ->
  let res := enableTombstoneCommits eng rt (Some (mkRepo (Some p))) w in
  res.1 = generateError rt 167 (Some g)
  /\ tombstone_flag res.2 p = Some true
  /\ write_count res.2 = S (write_count w).
Proof.
  intros Hflag Hfail res. subst res.
  split; [|split; [|by apply write_count_after_write]].
  - rewrite write_answer_eq in Hfail.
    rewrite enableTombstoneCommits_run. cbv zeta. rewrite Hflag, !Hfail.
    reflexivity.
  - pose proof (enableTombstoneCommits_sets_flag eng rt p w) as Hset.
    unfold tombstone_enabled in Hset.
    destruct (tombstone_flag _ p) as [[|]|]; [reflexivity | discriminate..].
Qed.

Lemma enableTombstoneCommits_write_fails_witness :
  let g := mkGError G_IO_ERROR 14 "Permission denied" in
  let eng := fake_engine ∅ ok_result ok_result (C_FALSE, Some g) in
  let res := enableTombstoneCommits eng go_runtime (Some (mkRepo (Some 1%positive)))
               empty_world in
  res.1 = generateError go_runtime 167 (Some g)
  /\ tombstone_flag res.2 1%positive = Some true
  /\ write_count res.2 = S (write_count empty_world).
Proof.
  intros g eng.
  exact (enableTombstoneCommits_write_fails eng go_runtime 1%positive empty_world g
           eq_refl eq_refl).
Defined.

(** X12. When the flag does not read as true, be it false or absent, and
    the engine answers the write of this call with success,
    [enableTombstoneCommits] returns no error after that one write, with
    the flag set in the repository's in-memory key file. *)
Theorem enableTombstoneCommits_write_succeeds (eng : Engine) (rt : Runtime)
    (p : addr) (w : World) :
  tombstone_enabled w p = false ->
  glib_GoBool (write_answer eng p w).1 = true ->
  let res := enableTombstoneCommits eng rt (Some (mkRepo (Some p))) w in
  res.1 = None
  /\ tombstone_flag res.2 p = Some true
  /\ write_count res.2 = S (write_count w).
Proof.
  intros Hflag Hok res. subst res.
  split; [|split; [|by apply write_count_after_write]].
  - rewrite write_answer_eq in Hok.
    rewrite enableTombstoneCommits_run. cbv zeta. rewrite Hflag, !Hok.
    reflexivity.
  - pose proof (enableTombstoneCommits_sets_flag eng rt p w) as Hset.
    unfold tombstone_enabled in Hset.
    destruct (tombstone_flag _ p) as [[|]|]; [reflexivity | discriminate..].
Qed.

Lemma enableTombstoneCommits_write_succeeds_witness :
  let eng := fake_engine ∅ ok_result ok_result ok_result in
  let w := mkWorld {[ 1%positive := {[ ("core", "tombstone-commits") := false;
                                       ("core", "mode") := true ]} ]} ∅ [] in
  let res := enableTombstoneCommits eng go_runtime (Some (mkRepo (Some 1%positive))) w in
  res.1 = None
  /\ tombstone_flag res.2 1%positive = Some true
  /\ write_count res.2 = S (write_count w).
Proof.
  intros eng w.
  exact (enableTombstoneCommits_write_succeeds eng go_runtime 1%positive w
           eq_refl eq_refl).
Defined.

(** X13. [enableTombstoneCommits] changes no other setting: every other
    key of the repository's key file, and every key of every other
    repository's key file, reads after the call as it did before. *)
Theorem enableTombstoneCommits_other_keys (eng : Engine) (rt : Runtime)
    (p : addr) (w : World) (q : addr) (k : string * string) :
  (q, k) <> (p, tombstone_key) ->
  key_file_of (enableTombstoneCommits eng rt (Some (mkRepo (Some p))) w).2 (Some q) !! k
  = key_file_of w (Some q) !! k.
Proof.
  intros Hother. rewrite enableTombstoneCommits_run. cbv zeta.
  destruct (tombstone_enabled w p); cbn [snd]; [reflexivity|].
  unfold key_file_of. cbn [keyfiles].
  destruct (decide (q = p)) as [->|Hq].
  - rewrite lookup_insert_eq. cbn [default from_option id].
    rewrite lookup_insert_ne; [reflexivity|]. congruence.
  - by rewrite lookup_insert_ne.
Qed.

Lemma enableTombstoneCommits_other_keys_witness :
  let eng := fake_engine ∅ ok_result ok_result ok_result in
  let w := mkWorld {[ 1%positive := {[ ("core", "mode") := true ]} ]} ∅ [] in
  key_file_of (enableTombstoneCommits eng go_runtime (Some (mkRepo (Some 1%positive))) w).2
    (Some 1%positive) !! ("core", "mode")
  = key_file_of w (Some 1%positive) !! ("core", "mode").
Proof.
  intros eng w.
  exact (enableTombstoneCommits_other_keys eng go_runtime 1%positive w 1%positive
           ("core", "mode") ltac:(discriminate)).
Defined.

(** X14. When the flag already reads as true, [enableTombstoneCommits]
    returns no error after two reads: it sets nothing, writes nothing and
    leaves the in-memory and the persisted configuration as they were. *)
Theorem enableTombstoneCommits_already_enabled (eng : Engine) (rt : Runtime)
    (p : addr) (w : World) :
  tombstone_enabled w p = true ->
  let res := enableTombstoneCommits eng rt (Some (mkRepo (Some p))) w in
  res.1 = None
  /\ keyfiles res.2 = keyfiles w
  /\ persisted res.2 = persisted w
  /\ calls res.2
     = calls w ++ [call_get_config (Some p);
                   call_key_file_get_boolean (Some p) "core" "tombstone-commits"].
Proof.
  intros Hflag res. subst res.
  rewrite enableTombstoneCommits_run. cbv zeta. rewrite Hflag.
  repeat split.
Qed.

Lemma enableTombstoneCommits_already_enabled_witness :
  let eng := fake_engine ∅ ok_result ok_result
               (C_FALSE, Some (mkGError G_IO_ERROR 14 "Permission denied")) in
  let w := mkWorld {[ 1%positive := {[ ("core", "tombstone-commits") := true ]} ]} ∅ [] in
  let res := enableTombstoneCommits eng go_runtime (Some (mkRepo (Some 1%positive))) w in
  res.1 = None
  /\ keyfiles res.2 = keyfiles w
  /\ persisted res.2 = persisted w
  /\ calls res.2
     = calls w ++ [call_get_config (Some 1%positive);
                   call_key_file_get_boolean (Some 1%positive) "core"
                     "tombstone-commits"].
Proof.
  intros eng w.
  exact (enableTombstoneCommits_already_enabled eng go_runtime 1%positive w eq_refl).
Defined.

(** X15. Opening and then enabling tombstone commits: on the handle
    [OpenRepo] returns, [enableTombstoneCommits] passes its guard and
    leaves the flag set on the repository object the engine made; on the
    nil handle of a failed open it stops at the guard and changes
    nothing. *)
Theorem OpenRepo_then_enableTombstoneCommits (eng : Engine) (rt : Runtime)
    (path : string) (w : World) :
  let opened := OpenRepo eng rt path w in
  let res := enableTombstoneCommits eng rt opened.1.1 opened.2 in
  match opened.1.1 with
  | Some r => exists p : addr,
      native (Some r) = Some p /\ tombstone_enabled res.2 p = true
  | None => res = (Some (errors_New "repo not initialized"), opened.2)
  end.
Proof.
  intros opened res. subst res opened.
  destruct (decide (path = "")) as [->|Hpath]; [reflexivity|].
  rewrite OpenRepo_run by exact Hpath. cbv zeta.
  destruct (ostree_repo_open _ _ _) as [r cerr]. cbn [fst snd].
  destruct (glib_GoBool r); cbn [fst snd]; [|reflexivity].
  destruct (ostree_repo_new eng w (C_CString path)) as [p|]; cbn [repoFromNative];
    [|reflexivity].
  exists p. split; [reflexivity | apply enableTombstoneCommits_sets_flag].
Qed.

(** ** The error text *)

Lemma string_length_app (a b : string) :
  String.length (a +:+ b) = (String.length a + String.length b)%nat.
Proof.
  induction a as [|ch a IH]; [reflexivity|].
  change (S (String.length (a +:+ b)) = S (String.length a + String.length b)).
  by rewrite IH.
Qed.

Lemma string_app_inv_r (a b c : string) : a +:+ c = b +:+ c -> a = b.
Proof.
  revert b. induction a as [|x a IH]; intros [|y b] H.
  - reflexivity.
  - apply (f_equal String.length) in H.
    rewrite !string_length_app in H. cbn [String.length] in H. lia.
  - apply (f_equal String.length) in H.
    rewrite !string_length_app in H. cbn [String.length] in H. lia.
  - change (String x (a +:+ c) = String y (b +:+ c)) in H.
    injection H as -> H. f_equal. by apply IH.
Qed.

(** X16. With the call site fixed, the adapter's error determines the
    message of the foreign error: two foreign errors that give the same
    Go error have the same message. *)
Theorem generateError_message_inj (rt : Runtime) (site : Z) (g g' : GError) :
  generateError rt site (Some g) = generateError rt site (Some g') ->
  message g = message g'.
Proof.
  unfold generateError, runtime_Caller, fmt_Errorf, glib_ConvertGError, errors_New.
  destruct (caller_ok rt); cbn [Error]; intros H; injection H as H; [|exact H].
  repeat apply String.app_inj in H. exact H.
Qed.

Lemma generateError_message_inj_witness :
  message cancelled_error = message transfer_error.
Proof.
  exact (generateError_message_inj go_runtime 139 cancelled_error transfer_error
           eq_refl).
Defined.

(** X17. When the call site is known, the line stamped into the error
    tells the operations apart: the same foreign error adapted at two
    lines gives the same Go error only if the lines are the same. *)
Theorem generateError_site_inj (rt : Runtime) (site site' : Z) (g : GError) :
  caller_ok rt = true ->
  generateError rt site (Some g) = generateError rt site' (Some g) ->
  site = site'.
Proof.
  unfold generateError, runtime_Caller, fmt_Errorf, glib_ConvertGError, errors_New.
  intros ->. cbn [Error]. intros H. injection H as H.
  do 2 apply String.app_inj in H.
  apply string_app_inv_r in H. by apply (inj pretty) in H.
Qed.

Lemma generateError_site_inj_witness : 64 = 64.
Proof.
  exact (generateError_site_inj go_runtime 64 64 cancelled_error eq_refl eq_refl).
Defined.

(** ** The option bag, further *)

(** X18. The loop that fills the C array leaves no [NULL] slot: the
    array has the length of [Refs] and slot [i] holds the copy of
    [Refs[i]], so [g_variant_new_strv] reads only strings. *)
Theorem fill_crefs_no_null (refs : list string) (i : nat) :
  length (fill_crefs refs) = length refs
  /\ fill_crefs refs !! i = (fun s => Some (C_CString s)) <$> (refs !! i)
  /\ Forall (fun c : option string => is_Some c) (fill_crefs refs).
Proof.
  rewrite fill_crefs_spec. split; [apply length_fmap|].
  split; [apply list_lookup_fmap|].
  apply Forall_fmap, Forall_true. intros s. by eexists.
Qed.

(** X19. The option bag never holds two entries under one key: it has
    at most two entries, their keys are distinct, and the override entry,
    when present, comes before the refs entry. *)
Theorem build_pull_options_keys (options : PullOptions) :
  let keys := (build_pull_options options).*1 in
  NoDup keys
  /\ (length keys <= 2)%nat
  /\ keys = List.filter
              (fun k => bool_decide (is_Some (bag_lookup k (build_pull_options options))))
              ["override-remote-name"; "refs"].
Proof.
  intros keys. subst keys. rewrite build_pull_options_spec.
  destruct (bool_decide (OverrideRemoteName options = ""));
    destruct (bool_decide (Refs options = [])); cbn.
  - repeat split; [constructor | lia].
  - repeat split; [apply NoDup_singleton | lia].
  - repeat split; [apply NoDup_singleton | lia].
  - repeat split; [|lia].
    apply NoDup_cons; split; [|apply NoDup_singleton].
    rewrite list_elem_of_singleton. discriminate.
Qed.
